(** * The disclaim-responsibility shim of [CResponsibility/responsibility.c]

    The translation unit declares one external OS symbol,
    [responsibility_spawnattrs_setdisclaim], and defines one function,
    [terminator_spawnattr_setdisclaim], whose body is a single call to that
    symbol.  The function is embedded as an interaction tree: the external
    symbol is an event answered by the environment, so that every statement
    below holds for every behaviour of the operating system. *)

From Stdlib Require Import ZArith List Lia.
From Paco Require Import paco.
From ITree Require Import ITree ITreeFacts Events.State Events.StateFacts
  Props.Finite.
Import ITreeNotations.
Import ListNotations.
Import Monads.

Local Open Scope itree_scope.
Local Open Scope Z_scope.

(** ** C data *)

(** A C [int]: a value between [INT_MIN] and [INT_MAX].  The shim performs no
    arithmetic on it, so no wrap-around is ever needed. *)
Definition int : Type := Z.

Definition INT_MIN : Z := - 2 ^ 31.
Definition INT_MAX : Z := 2 ^ 31 - 1.

Definition is_int (z : Z) : bool := (INT_MIN <=? z) && (z <=? INT_MAX).

(** A value of type [posix_spawnattr_t *]: an address, [NULL] being 0. *)
Definition ptr : Type := Z.

Definition NULL : ptr := 0.

(** [#define POSIX_SPAWN_SETDISCLAIM 1] *)
Definition POSIX_SPAWN_SETDISCLAIM : int := 1.

(** ** What a C function body can do *)

(** Memory actions available to any C function that holds a pointer. *)
Variant memE : Type -> Type :=
| Load (p : ptr) : memE Z
| Store (p : ptr) (v : Z) : memE unit
| Malloc (size : Z) : memE ptr
| Free (p : ptr) : memE unit.

(** [extern int responsibility_spawnattrs_setdisclaim(posix_spawnattr_t *attr,
    int disclaim);] is declared and not defined: a call to it is an event. *)
Variant osE : Type -> Type :=
| Responsibility_spawnattrs_setdisclaim (attr : ptr) (disclaim : int) : osE int.

Definition cE : Type -> Type := memE +' osE.

Definition responsibility_spawnattrs_setdisclaim
  (attr : ptr) (disclaim : int) : itree cE int :=
  trigger (Responsibility_spawnattrs_setdisclaim attr disclaim).

(** [int terminator_spawnattr_setdisclaim(posix_spawnattr_t *attr, int disclaim) {
        return responsibility_spawnattrs_setdisclaim(attr, disclaim);
    }] *)
Definition terminator_spawnattr_setdisclaim
  (attr : ptr) (disclaim : int) : itree cE int :=
  status <- responsibility_spawnattrs_setdisclaim attr disclaim ;;
  Ret status.

(** Two invocations in a row, as a caller would write them. *)
Definition twice (attr : ptr) (disclaim : int) : itree cE (int * int) :=
  first <- terminator_spawnattr_setdisclaim attr disclaim ;;
  second <- terminator_spawnattr_setdisclaim attr disclaim ;;
  Ret (first, second).

(** ** Running a C computation against an environment *)

(** The environment answers memory events with [h_mem] and calls of the OS
    symbol with [h_os], both over an arbitrary state [World]; an answer is
    itself a tree, so an OS call that never returns is a behaviour too. *)
Definition handler (E : Type -> Type) (World : Type) : Type :=
  E ~> stateT World (itree void1).

Definition h_c {World} (h_mem : handler memE World) (h_os : handler osE World)
  : handler cE World :=
  case_ h_mem h_os.

Definition run {World R} (h_mem : handler memE World) (h_os : handler osE World)
  (t : itree cE R) (w : World) : itree void1 (World * R) :=
  interp_state (h_c h_mem h_os) t w.

(** The answer of the OS symbol to the call the shim makes. *)
Definition os_call {World} (h_os : handler osE World)
  (attr : ptr) (disclaim : int) (w : World) : itree void1 (World * int) :=
  h_os _ (Responsibility_spawnattrs_setdisclaim attr disclaim) w.

(** Modelled from the spec: the OS primitive is not part of the source, and
    the spec gives its footprint: it acts on the OS-private state behind the
    handle.  [lift_os] runs a primitive that owns a state [OS] in a world
    that also holds the caller's memory [Mem], which the primitive leaves
    alone. *)
Definition lift_os {Mem OS : Type} (h_os : handler osE OS)
  : handler osE (Mem * OS) :=
  fun _ e s => ITree.map (fun p => ((fst s, fst p), snd p)) (h_os _ e (snd s)).

(** ** Observable actions and complete runs *)

(** One entry per event of a run, with the answer the environment gave. *)
Variant action : Type :=
| ActLoad (p : ptr) (v : Z)
| ActStore (p : ptr) (v : Z)
| ActMalloc (size : Z) (p : ptr)
| ActFree (p : ptr)
| ActCall (attr : ptr) (disclaim : int) (status : int).

Definition mem_action {X} (m : memE X) : X -> action :=
  match m in memE X return X -> action with
  | Load p => fun v => ActLoad p v
  | Store p v => fun _ => ActStore p v
  | Malloc size => fun p => ActMalloc size p
  | Free p => fun _ => ActFree p
  end.

Definition os_action {X} (o : osE X) : X -> action :=
  match o in osE X return X -> action with
  | Responsibility_spawnattrs_setdisclaim attr disclaim =>
      fun status => ActCall attr disclaim status
  end.

Definition action_of {X} (e : cE X) : X -> action :=
  match e with
  | inl1 m => mem_action m
  | inr1 o => os_action o
  end.

(** [runs t tr r]: the computation [t] can perform exactly the actions [tr],
    in that order, and then return [r]. *)
Inductive runs {R} : itree cE R -> list action -> R -> Prop :=
| runs_ret t r :
    observe t = RetF r -> runs t [] r
| runs_tau t u tr r :
    observe t = TauF u -> runs u tr r -> runs t tr r
| runs_vis t X (e : cE X) k x tr r :
    observe t = VisF e k -> runs (k x) tr r -> runs t (action_of e x :: tr) r.

Definition is_deref (a : action) : bool :=
  match a with
  | ActLoad _ _ | ActStore _ _ => true
  | _ => false
  end.

Definition is_alloc_free_store (a : action) : bool :=
  match a with
  | ActStore _ _ | ActMalloc _ _ | ActFree _ => true
  | _ => false
  end.

(** The arguments of the calls of the OS symbol in a run, in order. *)
Fixpoint calls_of (tr : list action) : list (ptr * int) :=
  match tr with
  | [] => []
  | ActCall attr disclaim _ :: tl => (attr, disclaim) :: calls_of tl
  | _ :: tl => calls_of tl
  end.

(** Evaluation of a closed computation, [fuel] steps at most. *)
Fixpoint exec {R} (fuel : nat) (t : itree void1 R) : option R :=
  match fuel with
  | O => None
  | S n =>
      match observe t with
      | RetF r => Some r
      | TauF u => exec n u
      | VisF e _ => match e with end
      end
  end.

(** ** Environments: the primitive as the spec describes it, and test doubles *)

Module Double.

Definition EINVAL : int := 22.

(** OS-private state: the initialised attribute handles, each with its
    disclaim flag. *)
Definition World : Type := list (ptr * int).

Fixpoint flag_of (w : World) (attr : ptr) : option int :=
  match w with
  | [] => None
  | (p, f) :: tl => if p =? attr then Some f else flag_of tl attr
  end.

Fixpoint set_flag (attr : ptr) (f : int) (w : World) : World :=
  match w with
  | [] => []
  | (p, g) :: tl =>
      if p =? attr then (p, f) :: tl else (p, g) :: set_flag attr f tl
  end.

Definition valid (attr : ptr) (w : World) : Prop := flag_of w attr <> None.

(** Modelled from the spec: the OS primitive
    [responsibility_spawnattrs_setdisclaim] is declared in the source and
    defined by the operating system.  On a supported OS it sets the disclaim
    flag behind an initialised handle (nonzero means disclaim, zero means do
    not) and returns 0.  For a pointer that is not an initialised handle the
    spec leaves the behaviour undefined; here the call is refused with
    [EINVAL] and changes nothing. *)
Definition os_supported : handler osE World :=
  fun _ e w =>
    match e in osE X return itree void1 (World * X) with
    | Responsibility_spawnattrs_setdisclaim attr disclaim =>
        match flag_of w attr with
        | Some _ =>
            Ret (set_flag attr (if disclaim =? 0 then 0 else 1) w, 0)
        | None => Ret (w, EINVAL)
        end
    end.

(** An OS whose symbol never returns. *)
Definition os_hangs : handler osE World :=
  fun _ e w =>
    match e in osE X return itree void1 (World * X) with
    | Responsibility_spawnattrs_setdisclaim _ _ => ITree.spin
    end.

(** A memory that forgets every handle as soon as it is touched. *)
Definition mem_wreck : handler memE World :=
  fun _ m w =>
    match m in memE X return itree void1 (World * X) with
    | Load _ => Ret ([], 0)
    | Store _ _ => Ret ([], tt)
    | Malloc _ => Ret ([], NULL)
    | Free _ => Ret ([], tt)
    end.

(** A memory that leaves the world alone. *)
Definition mem_idle {W : Type} : handler memE W :=
  fun _ m w =>
    match m in memE X return itree void1 (W * X) with
    | Load _ => Ret (w, 0)
    | Store _ _ => Ret (w, tt)
    | Malloc _ => Ret (w, NULL)
    | Free _ => Ret (w, tt)
    end.

(** Caller memory as the list of live addresses: [Malloc] starts the life
    of a fresh cell and [Free] ends the life of the cell it is given. *)
Definition mem_live {OS : Type} : handler memE (list ptr * OS) :=
  fun _ m s =>
    match m in memE X return itree void1 (list ptr * OS * X) with
    | Load _ => Ret (s, 0)
    | Store _ _ => Ret (s, tt)
    | Malloc _ =>
        let p := 1 + fold_right Z.max 0 (fst s) in
        Ret ((p :: fst s, snd s), p)
    | Free p => Ret ((remove Z.eq_dec p (fst s), snd s), tt)
    end.

(** A recording double: the state is the list of calls received, most
    recent last, and every call is answered with [status]. *)
Definition os_recording (status : int) : handler osE (list (ptr * int)) :=
  fun _ e log =>
    match e in osE X return itree void1 (list (ptr * int) * X) with
    | Responsibility_spawnattrs_setdisclaim attr disclaim =>
        Ret (log ++ [(attr, disclaim)], status)
    end.

(** One handle at address 4096 whose flag is clear, one at 8192 whose flag
    is set. *)
Definition w0 : World := [(4096, 0); (8192, 1)].

End Double.


(** * Properties *)

(** ** Evaluation with fuel agrees with returning *)

Lemma exec_sound {R} (fuel : nat) (t : itree void1 R) (r : R) :
  exec fuel t = Some r -> t ≈ Ret r.
Proof.
  revert t. induction fuel as [|n IH]; intros t H; [discriminate|].
  cbn in H. rewrite (itree_eta t).
  destruct (observe t) as [r'|u|X e k].
  - injection H as ->. reflexivity.
  - rewrite tau_eutt. auto.
  - destruct e.
Qed.

Lemma exec_complete {R} (t : itree void1 R) (r : R) :
  t ≈ Ret r -> exists fuel, exec fuel t = Some r.
Proof.
  intros H. punfold H. red in H. cbn in H.
  remember (observe t) as ot eqn:Hot.
  remember (RetF r) as orr eqn:Hor.
  revert t Hot.
  induction H; intros t Hot; try discriminate.
  - injection Hor as <-. subst r2. exists 1%nat. cbn. rewrite <- Hot. reflexivity.
  - destruct (IHeqitF Hor t1 eq_refl) as [n Hn].
    exists (S n). cbn. rewrite <- Hot. exact Hn.
Qed.

Lemma exec_mono {R} (n m : nat) (t : itree void1 R) (r : R) :
  exec n t = Some r -> (n <= m)%nat -> exec m t = Some r.
Proof.
  revert m t. induction n as [|n IH]; intros m t H Hle; [discriminate|].
  destruct m as [|m]; [lia|]. cbn in *.
  destruct (observe t) as [r'|u|X e k]; auto.
  apply IH; [assumption | lia].
Qed.

Lemma ret_eutt_inv {E R} (a b : R) : (Ret a : itree E R) ≈ Ret b -> a = b.
Proof. apply eqit_inv_Ret. Qed.

(** ** The shape of the shim *)

Lemma runs_inv {R} (t : itree cE R) tr r :
  runs t tr r ->
  match observe t with
  | RetF r' => tr = [] /\ r = r'
  | TauF u => runs u tr r
  | VisF e k => exists x tr', tr = action_of e x :: tr' /\ runs (k x) tr' r
  end.
Proof.
  intros H. destruct H as [t r H | t u tr r H Hu | t X e k x tr r H Hk];
    rewrite H; eauto.
Qed.

Lemma shim_one_call attr disclaim :
  terminator_spawnattr_setdisclaim attr disclaim
  ≅ Vis (inr1 (Responsibility_spawnattrs_setdisclaim attr disclaim) : cE int)
        (fun status => Ret status).
Proof.
  unfold terminator_spawnattr_setdisclaim,
    responsibility_spawnattrs_setdisclaim.
  rewrite bind_ret_r. reflexivity.
Qed.

Lemma runs_shim_intro attr disclaim status :
  runs (terminator_spawnattr_setdisclaim attr disclaim)
       [ActCall attr disclaim status] status.
Proof.
  apply (runs_vis _ _
           (inr1 (Responsibility_spawnattrs_setdisclaim attr disclaim))
           (fun x => ITree.bind (Ret x) (fun status => Ret status))
           status [] status).
  - reflexivity.
  - apply runs_ret. reflexivity.
Qed.

Lemma runs_shim_inv attr disclaim tr r :
  runs (terminator_spawnattr_setdisclaim attr disclaim) tr r ->
  tr = [ActCall attr disclaim r].
Proof.
  intros H. apply runs_inv in H. cbn in H.
  destruct H as (status & tr' & -> & H).
  apply runs_inv in H. cbn in H. destruct H as [-> ->]. reflexivity.
Qed.

Section Environment.

Context {World : Type}.
Variable h_mem : handler memE World.
Variable h_os : handler osE World.

Lemma run_shim attr disclaim w :
  run h_mem h_os (terminator_spawnattr_setdisclaim attr disclaim) w
  ≈ os_call h_os attr disclaim w.
Proof.
  unfold run. rewrite shim_one_call, interp_state_vis. cbn.
  unfold os_call.
  rewrite <- (bind_ret_r
    (h_os int (Responsibility_spawnattrs_setdisclaim attr disclaim) w)) at 2.
  apply eqit_bind; [reflexivity|]. intros [w' status]. cbn.
  rewrite tau_eutt, interp_state_ret. reflexivity.
Qed.

(** C1: for every attributes handle and every disclaim value, against
    every behaviour of the operating system, running the shim is running
    the OS primitive on that call: the same status comes back, unmodified,
    and the same world is left. *)
Theorem setdisclaim_pass_through attr disclaim w :
  run h_mem h_os (terminator_spawnattr_setdisclaim attr disclaim) w
  ≈ os_call h_os attr disclaim w.
Proof. apply run_shim. Qed.

Lemma run_shim_returns attr disclaim w w' status :
  run h_mem h_os (terminator_spawnattr_setdisclaim attr disclaim) w
    ≈ Ret (w', status) <->
  os_call h_os attr disclaim w ≈ Ret (w', status).
Proof. rewrite run_shim. reflexivity. Qed.

(** C3: the shim has no error channel of its own.  It ends with status
    [status] in world [w'] exactly when the OS primitive does: a failure
    reported by the shim is a failure reported by the primitive with the
    same code, and a success of the primitive is never turned into a
    failure.  On every run the value returned is the status the primitive
    answered. *)
Theorem setdisclaim_no_local_error attr disclaim w w' status :
  (run h_mem h_os (terminator_spawnattr_setdisclaim attr disclaim) w
     ≈ Ret (w', status) <->
   os_call h_os attr disclaim w ≈ Ret (w', status)) /\
  (forall tr r,
      runs (terminator_spawnattr_setdisclaim attr disclaim) tr r ->
      In (ActCall attr disclaim r) tr).
Proof.
  split.
  - apply run_shim_returns.
  - intros tr r H. apply runs_shim_inv in H. subst tr. left. reflexivity.
Qed.

(** C7: the shim has finitely many steps on every branch (no loop, no
    recursion, no retry, no wait), and it returns whenever the OS
    primitive returns: enough fuel evaluates it to the primitive's
    result. *)
Theorem setdisclaim_terminates attr disclaim w w' status :
  os_call h_os attr disclaim w ≈ Ret (w', status) ->
  all_finite (terminator_spawnattr_setdisclaim attr disclaim) /\
  exists fuel,
    exec fuel
      (run h_mem h_os (terminator_spawnattr_setdisclaim attr disclaim) w)
    = Some (w', status).
Proof.
  intros H. split.
  - rewrite shim_one_call. apply all_finite_Vis. intros x.
    apply all_finite_Ret.
  - apply exec_complete. rewrite run_shim. exact H.
Qed.

End Environment.

(** C2: every run of the shim consists of exactly one action, a call of the
    OS primitive carrying the two parameters the shim received, followed by
    the return of that call's status; conversely every such run exists. *)
Theorem setdisclaim_calls_once attr disclaim tr r :
  runs (terminator_spawnattr_setdisclaim attr disclaim) tr r <->
  tr = [ActCall attr disclaim r].
Proof.
  split.
  - apply runs_shim_inv.
  - intros ->. apply runs_shim_intro.
Qed.

(** C5: the status the shim returns depends on nothing but the status the
    primitive returns: two invocations with the same handle and flag, in any
    two environments and worlds in which the primitive answers alike, return
    alike.  Nothing is retained between calls: the second of two successive
    invocations starts from the world the primitive left at the first. *)
Theorem setdisclaim_stateless_deterministic
  {W1 W2 : Type}
  (h_mem1 : handler memE W1) (h_os1 : handler osE W1)
  (h_mem2 : handler memE W2) (h_os2 : handler osE W2)
  attr disclaim w1 w2 :
  ITree.map snd (os_call h_os1 attr disclaim w1)
    ≈ ITree.map snd (os_call h_os2 attr disclaim w2) ->
  ITree.map snd
    (run h_mem1 h_os1 (terminator_spawnattr_setdisclaim attr disclaim) w1)
    ≈ ITree.map snd
        (run h_mem2 h_os2 (terminator_spawnattr_setdisclaim attr disclaim) w2)
  /\
  run h_mem1 h_os1 (twice attr disclaim) w1
    ≈ (a <- os_call h_os1 attr disclaim w1 ;;
       b <- os_call h_os1 attr disclaim (fst a) ;;
       Ret (fst b, (snd a, snd b))).
Proof.
  intros H. split.
  - rewrite !run_shim. exact H.
  - unfold twice, run. rewrite interp_state_bind.
    fold (run h_mem1 h_os1 (terminator_spawnattr_setdisclaim attr disclaim) w1).
    rewrite run_shim.
    apply eqit_bind; [reflexivity|]. intros [wa a]. cbn.
    rewrite interp_state_bind.
    fold (run h_mem1 h_os1 (terminator_spawnattr_setdisclaim attr disclaim) wa).
    rewrite run_shim.
    apply eqit_bind; [reflexivity|]. intros [wb b]. cbn.
    rewrite interp_state_ret. reflexivity.
Qed.

(** C9: the shim checks nothing about the handle.  For every pointer, [NULL]
    included, the run that calls the primitive with that pointer exists, and
    every run starts with that call: there is no path on which the shim
    returns or acts before handing the pointer over. *)
Theorem setdisclaim_no_handle_check attr disclaim :
  (forall status,
      runs (terminator_spawnattr_setdisclaim attr disclaim)
           [ActCall attr disclaim status] status) /\
  (forall status,
      runs (terminator_spawnattr_setdisclaim NULL disclaim)
           [ActCall NULL disclaim status] status) /\
  (forall tr r,
      runs (terminator_spawnattr_setdisclaim attr disclaim) tr r ->
      hd_error tr = Some (ActCall attr disclaim r)).
Proof.
  repeat split.
  - intros status. apply runs_shim_intro.
  - intros status. apply runs_shim_intro.
  - intros tr r H. apply runs_shim_inv in H. subst tr. reflexivity.
Qed.

(** C10: the body of the shim reads and writes nothing through the pointer:
    no run of it contains a load or a store, and its outcome is the same
    whatever the memory would have answered. *)
Theorem setdisclaim_no_dereference
  {World : Type} (h_mem1 h_mem2 : handler memE World) (h_os : handler osE World)
  attr disclaim w :
  (forall tr r,
      runs (terminator_spawnattr_setdisclaim attr disclaim) tr r ->
      existsb is_deref tr = false) /\
  run h_mem1 h_os (terminator_spawnattr_setdisclaim attr disclaim) w
    ≈ run h_mem2 h_os (terminator_spawnattr_setdisclaim attr disclaim) w.
Proof.
  split.
  - intros tr r H. apply runs_shim_inv in H. subst tr. reflexivity.
  - rewrite !run_shim. reflexivity.
Qed.

(** ** The shim against the test doubles *)

Example shim_sets_flag :
  exec 3 (run Double.mem_wreck Double.os_supported
            (terminator_spawnattr_setdisclaim 4096 1) Double.w0)
  = Some ([(4096, 1); (8192, 1)], 0).
Proof. reflexivity. Qed.

Example shim_records_null_and_negative :
  exec 3 (run Double.mem_idle (Double.os_recording 7)
            (terminator_spawnattr_setdisclaim NULL (-1)) [])
  = Some ([(NULL, -1)], 7).
Proof. reflexivity. Qed.

Example shim_waits_for_os :
  exec 1000 (run Double.mem_wreck Double.os_hangs
               (terminator_spawnattr_setdisclaim 4096 1) Double.w0)
  = None.
Proof. vm_compute. reflexivity. Qed.

Lemma setdisclaim_stateless_deterministic_witness :
  ITree.map snd
    (run Double.mem_wreck Double.os_supported
       (terminator_spawnattr_setdisclaim 4096 1) Double.w0)
    ≈ ITree.map snd
        (run Double.mem_idle (Double.os_recording 0)
           (terminator_spawnattr_setdisclaim 4096 1) [])
  /\
  run Double.mem_wreck Double.os_supported (twice 4096 1) Double.w0
    ≈ (a <- os_call Double.os_supported 4096 1 Double.w0 ;;
       b <- os_call Double.os_supported 4096 1 (fst a) ;;
       Ret (fst b, (snd a, snd b))).
Proof.
  apply (setdisclaim_stateless_deterministic
           Double.mem_wreck Double.os_supported
           Double.mem_idle (Double.os_recording 0) 4096 1 Double.w0 []).
  cbn. rewrite !map_ret. reflexivity.
Defined.

Lemma setdisclaim_terminates_witness :
  all_finite (terminator_spawnattr_setdisclaim 4096 1) /\
  exists fuel,
    exec fuel
      (run Double.mem_wreck Double.os_supported
         (terminator_spawnattr_setdisclaim 4096 1) Double.w0)
    = Some ([(4096, 1); (8192, 1)], 0).
Proof.
  apply (setdisclaim_terminates Double.mem_wreck Double.os_supported
           4096 1 Double.w0 [(4096, 1); (8192, 1)] 0).
  reflexivity.
Defined.


(** ** The shim inside a caller *)

(** A run is determined by what the computation shows step by step. *)
Lemma runs_observe {R} (t t' : itree cE R) tr r :
  observe t = observe t' -> runs t tr r -> runs t' tr r.
Proof.
  intros E H.
  destruct H as [t r H | t u tr r H Hu | t X e k x tr r H Hk].
  - apply runs_ret. rewrite <- E. exact H.
  - apply (runs_tau _ u); [rewrite <- E|]; assumption.
  - apply (runs_vis _ _ e k); [rewrite <- E|]; assumption.
Qed.

Lemma runs_bind_intro {A R} (t : itree cE A) (k : A -> itree cE R)
  tr1 x tr2 r :
  runs t tr1 x -> runs (k x) tr2 r -> runs (ITree.bind t k) (tr1 ++ tr2) r.
Proof.
  intros Ht Hk.
  induction Ht as [t x H | t u tr x H Hu IH | t X e ke y tr x H Hke IH].
  - apply (runs_observe (k x)); [|exact Hk].
    rewrite observe_bind, H. reflexivity.
  - apply (runs_tau _ (ITree.bind u k)); [|exact (IH Hk)].
    rewrite observe_bind, H. reflexivity.
  - cbn. apply (runs_vis _ _ e (fun z => ITree.bind (ke z) k)); [|exact (IH Hk)].
    rewrite observe_bind, H. reflexivity.
Qed.

(** Two event nodes that are equal ask the same question and continue alike. *)
Lemma VisF_eq_inv {R X} (e : cE X) (k : X -> itree cE R)
  (o : itreeF cE R (itree cE R)) :
  o = VisF e k ->
  match o with
  | VisF e' k' =>
      forall y', exists y, k' y' = k y /\ action_of e' y' = action_of e y
  | _ => False
  end.
Proof. intros ->. intros y. exists y. split; reflexivity. Qed.

Lemma runs_bind_inv_gen {R} (b : itree cE R) tr r :
  runs b tr r ->
  forall A (t : itree cE A) (k : A -> itree cE R),
    observe b = observe (ITree.bind t k) ->
    exists tr1 x tr2,
      runs t tr1 x /\ runs (k x) tr2 r /\ tr = tr1 ++ tr2.
Proof.
  induction 1 as [b r H | b u tr r H Hu IH | b X e kb y tr r H Hkb IH];
    intros A t k E; rewrite observe_bind in E;
    destruct (observe t) as [x | t0 | Y e0 k0] eqn:Ht; cbn in E;
    rewrite H in E.
  - exists [], x, []. repeat split.
    + apply runs_ret. exact Ht.
    + apply runs_ret. symmetry. exact E.
  - discriminate.
  - discriminate.
  - exists [], x, tr. repeat split.
    + apply runs_ret. exact Ht.
    + apply (runs_tau _ u); [symmetry; exact E | exact Hu].
  - injection E as ->.
    destruct (IH A t0 k eq_refl) as (tr1 & x & tr2 & H1 & H2 & ->).
    exists tr1, x, tr2. repeat split; [|exact H2].
    apply (runs_tau _ t0); assumption.
  - discriminate.
  - exists [], x, (action_of e y :: tr). repeat split.
    + apply runs_ret. exact Ht.
    + apply (runs_vis _ _ e kb); [symmetry; exact E | exact Hkb].
  - discriminate.
  - destruct (VisF_eq_inv _ _ _ E y) as (y0 & Ek & Ea).
    destruct (IH A (k0 y0) k) as (tr1 & x & tr2 & H1 & H2 & ->).
    { rewrite Ek. reflexivity. }
    exists (action_of e0 y0 :: tr1), x, tr2. repeat split; [|exact H2|].
    + apply (runs_vis _ _ e0 k0); assumption.
    + cbn. rewrite Ea. reflexivity.
Qed.

Lemma runs_bind_inv {A R} (t : itree cE A) (k : A -> itree cE R) tr r :
  runs (ITree.bind t k) tr r ->
  exists tr1 x tr2, runs t tr1 x /\ runs (k x) tr2 r /\ tr = tr1 ++ tr2.
Proof. intros H. exact (runs_bind_inv_gen _ _ _ H A t k eq_refl). Qed.

(** X1: in every caller, whatever it does before and after, an invocation of
    the shim contributes exactly one action to the run, the call of the
    primitive with the arguments the caller computed, placed between the
    caller's earlier and later actions; and the caller goes on with the
    status that call answered. *)
Theorem setdisclaim_in_context {A R}
  (pre : itree cE A) (attr : A -> ptr) (disclaim : A -> int)
  (k : A -> int -> itree cE R) tr r :
  runs (x <- pre ;;
        status <- terminator_spawnattr_setdisclaim (attr x) (disclaim x) ;;
        k x status) tr r
  <->
  exists tr1 x status tr2,
    runs pre tr1 x /\ runs (k x status) tr2 r /\
    tr = tr1 ++ ActCall (attr x) (disclaim x) status :: tr2.
Proof.
  split.
  - intros H.
    apply runs_bind_inv in H. destruct H as (tr1 & x & tr' & H1 & H & ->).
    apply runs_bind_inv in H. destruct H as (trc & status & tr2 & Hc & H2 & ->).
    apply runs_shim_inv in Hc. subst trc.
    exists tr1, x, status, tr2. repeat split; assumption.
  - intros (tr1 & x & status & tr2 & H1 & H2 & ->).
    apply (runs_bind_intro pre _ tr1 x); [exact H1|].
    apply (runs_bind_intro _ _ [ActCall (attr x) (disclaim x) status] status);
      [apply runs_shim_intro | exact H2].
Qed.

(** X2: against every environment and in every caller, an invocation of the
    shim can be replaced by the call of the primitive itself: the caller
    goes on from the world and with the status the primitive produced, and
    nothing else of the run changes. *)
Theorem setdisclaim_run_in_context {World A R}
  (h_mem : handler memE World) (h_os : handler osE World)
  (pre : itree cE A) (attr : A -> ptr) (disclaim : A -> int)
  (k : A -> int -> itree cE R) (w : World) :
  run h_mem h_os
    (x <- pre ;;
     status <- terminator_spawnattr_setdisclaim (attr x) (disclaim x) ;;
     k x status) w
  ≈ (p <- run h_mem h_os pre w ;;
     q <- os_call h_os (attr (snd p)) (disclaim (snd p)) (fst p) ;;
     run h_mem h_os (k (snd p) (snd q)) (fst q)).
Proof.
  unfold run at 1. rewrite interp_state_bind.
  apply eqit_bind; [reflexivity|]. intros [w1 x]. cbn.
  rewrite interp_state_bind.
  fold (run h_mem h_os
          (terminator_spawnattr_setdisclaim (attr x) (disclaim x)) w1).
  rewrite run_shim.
  apply eqit_bind; [reflexivity|]. intros [w2 status]. cbn. reflexivity.
Qed.

(** A caller that reads the flag it wants from memory, invokes the shim and
    stores the status: its run is the load, the one call, the store. *)
Lemma setdisclaim_in_context_witness :
  runs (flag <- trigger (Load 4096) ;;
        status <- terminator_spawnattr_setdisclaim 8192 flag ;;
        trigger (Store 4104 status))
       [ActLoad 4096 1; ActCall 8192 1 22; ActStore 4104 22] tt.
Proof.
  apply (proj2 (setdisclaim_in_context
                  (trigger (Load 4096)) (fun _ => 8192) (fun flag => flag)
                  (fun _ status => trigger (Store 4104 status))
                  [ActLoad 4096 1; ActCall 8192 1 22; ActStore 4104 22] tt)).
  exists [ActLoad 4096 1], 1, 22, [ActStore 4104 22]. repeat split.
  - apply (runs_vis _ _ (inl1 (Load 4096)) (fun v => Ret v) 1 [] 1);
      [reflexivity | apply runs_ret; reflexivity].
  - apply (runs_vis _ _ (inl1 (Store 4104 22)) (fun u => Ret u) tt [] tt);
      [reflexivity | apply runs_ret; reflexivity].
Defined.

(** ** The caller's memory across the call *)

Lemma run_shim_lifted {Mem OS}
  (h_mem : handler memE (Mem * OS)) (h_os : handler osE OS)
  attr disclaim m o :
  run h_mem (lift_os h_os) (terminator_spawnattr_setdisclaim attr disclaim)
      (m, o)
  ≈ ITree.map (fun p => ((m, fst p), snd p)) (os_call h_os attr disclaim o).
Proof. rewrite run_shim. reflexivity. Qed.

(** C4: the shim neither allocates, frees, stores nor keeps the handle.
    With the caller's memory [m] beside the OS-private state [o], under every
    meaning of the memory actions and every behaviour of the primitive:
    running the shim is running the primitive with [m] carried along
    untouched; the run that hands the caller's pointer to the primitive
    exists for every answer, and no run contains a store, an allocation or a
    release; and the shim returns to the caller exactly when the primitive
    returns, with the memory the caller had before the call, so that a
    handle that was valid is still valid and holds what it held. *)
Theorem setdisclaim_handle_frame {Mem OS}
  (h_mem : handler memE (Mem * OS)) (h_os : handler osE OS)
  attr disclaim m o :
  run h_mem (lift_os h_os) (terminator_spawnattr_setdisclaim attr disclaim)
      (m, o)
    ≈ ITree.map (fun p => ((m, fst p), snd p))
        (os_call h_os attr disclaim o) /\
  (forall status,
      runs (terminator_spawnattr_setdisclaim attr disclaim)
           [ActCall attr disclaim status] status) /\
  (forall tr r,
      runs (terminator_spawnattr_setdisclaim attr disclaim) tr r ->
      existsb is_alloc_free_store tr = false /\
      List.map fst (calls_of tr) = [attr]) /\
  (forall m' o' status,
      run h_mem (lift_os h_os)
          (terminator_spawnattr_setdisclaim attr disclaim) (m, o)
        ≈ Ret ((m', o'), status) <->
      m' = m /\ os_call h_os attr disclaim o ≈ Ret (o', status)).
Proof.
  split; [apply run_shim_lifted|].
  split; [intros status; apply runs_shim_intro|].
  split.
  - intros tr r H. apply runs_shim_inv in H. subst tr. split; reflexivity.
  - intros m' o' status. rewrite run_shim_lifted. split.
    + intros H. unfold ITree.map in H.
      apply eutt_inv_bind_ret in H. destruct H as ([o1 s1] & Hos & Hret).
      apply ret_eutt_inv in Hret. cbn in Hret.
      injection Hret as <- <- <-. split; [reflexivity | exact Hos].
    + intros [-> Hos]. rewrite Hos. unfold ITree.map.
      rewrite bind_ret_l. reflexivity.
Qed.

Lemma setdisclaim_handle_frame_witness :
  exec 3 (run Double.mem_live (lift_os Double.os_supported)
            (terminator_spawnattr_setdisclaim 4096 1) ([4096], Double.w0))
    = Some (([4096], [(4096, 1); (8192, 1)]), 0) /\
  forall m' o' status,
    run Double.mem_live (lift_os Double.os_supported)
        (terminator_spawnattr_setdisclaim 4096 1) ([4096], Double.w0)
      ≈ Ret ((m', o'), status) ->
    In 4096 m'.
Proof.
  split; [reflexivity|].
  intros m' o' status H.
  apply (proj1 (proj2 (proj2 (proj2
           (setdisclaim_handle_frame Double.mem_live Double.os_supported
              4096 1 [4096] Double.w0))) m' o' status)) in H.
  destruct H as [-> _]. left. reflexivity.
Defined.

(** ** Clearing a flag that is clear *)

Lemma set_flag_same (w : Double.World) attr f :
  Double.flag_of w attr = Some f -> Double.set_flag attr f w = w.
Proof.
  induction w as [|[p g] tl IH]; cbn; [discriminate|].
  destruct (p =? attr) eqn:E.
  - intros [= ->]. reflexivity.
  - intros H. rewrite (IH H). reflexivity.
Qed.

(** C6: on a handle whose disclaim flag is already clear, invoking the shim
    with [disclaim = 0] against the primitive of a supported OS returns 0 and
    leaves the state as it was, whatever the memory does; and it does so by
    asking the primitive: its runs are the one call with flag 0, each
    returning the answer of that call. *)
Theorem setdisclaim_false_is_noop
  (h_mem : handler memE Double.World) attr w :
  Double.flag_of w attr = Some 0 ->
  run h_mem Double.os_supported (terminator_spawnattr_setdisclaim attr 0) w
    ≈ Ret (w, 0) /\
  (forall tr r,
      runs (terminator_spawnattr_setdisclaim attr 0) tr r <->
      tr = [ActCall attr 0 r]).
Proof.
  intros Hflag. split.
  - rewrite run_shim. unfold os_call. cbn. rewrite Hflag.
    rewrite (set_flag_same w attr 0 Hflag). reflexivity.
  - intros tr r. split.
    + apply runs_shim_inv.
    + intros ->. apply runs_shim_intro.
Qed.

Lemma setdisclaim_false_is_noop_witness :
  Double.flag_of Double.w0 4096 = Some 0 /\
  run Double.mem_wreck Double.os_supported
      (terminator_spawnattr_setdisclaim 4096 0) Double.w0
    ≈ Ret (Double.w0, 0).
Proof.
  split; [reflexivity|].
  apply (setdisclaim_false_is_noop Double.mem_wreck 4096 Double.w0).
  reflexivity.
Defined.

(** With the flag set the same invocation is not a no-op: it clears the
    flag. *)
Example shim_clears_set_flag :
  exec 3 (run Double.mem_wreck Double.os_supported
            (terminator_spawnattr_setdisclaim 8192 0) Double.w0)
  = Some ([(4096, 0); (8192, 0)], 0).
Proof. reflexivity. Qed.

(** ** The flag that reaches the primitive *)

(** C8: whatever integer the shim receives as [disclaim], it calls the
    primitive and the call carries that integer: the run exists for every
    answer, a recording primitive ends with exactly that integer in its log,
    every run's call carries it, and when it differs from
    [POSIX_SPAWN_SETDISCLAIM] the constant is not what is passed. *)
Theorem setdisclaim_forwards_any_int attr disclaim :
  (forall status,
      runs (terminator_spawnattr_setdisclaim attr disclaim)
           [ActCall attr disclaim status] status) /\
  (forall status,
      exec 3 (run Double.mem_idle (Double.os_recording status)
                (terminator_spawnattr_setdisclaim attr disclaim) [])
      = Some ([(attr, disclaim)], status)) /\
  (forall tr r,
      runs (terminator_spawnattr_setdisclaim attr disclaim) tr r ->
      List.map snd (calls_of tr) = [disclaim] /\
      (disclaim <> POSIX_SPAWN_SETDISCLAIM ->
       ~ In POSIX_SPAWN_SETDISCLAIM (List.map snd (calls_of tr)))).
Proof.
  split; [intros status; apply runs_shim_intro|].
  split; [intros status; reflexivity|].
  intros tr r H. apply runs_shim_inv in H. subst tr. cbn.
  split; [reflexivity|].
  intros Hne [Heq | []]. congruence.
Qed.

Lemma setdisclaim_forwards_any_int_witness :
  is_int 2 = true /\ is_int (-1) = true /\
  exec 3 (run Double.mem_idle (Double.os_recording 0)
            (terminator_spawnattr_setdisclaim 4096 2) [])
    = Some ([(4096, 2)], 0) /\
  exec 3 (run Double.mem_idle (Double.os_recording 22)
            (terminator_spawnattr_setdisclaim NULL (-1)) [])
    = Some ([(NULL, -1)], 22).
Proof.
  split; [reflexivity|]. split; [reflexivity|]. split.
  - apply (proj1 (proj2 (setdisclaim_forwards_any_int 4096 2)) 0).
  - apply (proj1 (proj2 (setdisclaim_forwards_any_int NULL (-1))) 22).
Defined.
